(** * CapTube: the download worker of [captube.py]

    A shallow embedding of the file-name helpers ([sanitize_filename],
    [unique_path]) and of the [DownloadWorker] thread ([cancel],
    [toggle_pause], [_on_progress], [_select_stream], [_download_one],
    [_iter_playlist], [run]), followed by the properties the specification
    states about them. *)

From Stdlib Require Import List ZArith NArith Lia Bool Ascii String.
From Stdlib Require Import DecimalZ Permutation Sorted FinFun.
From Stdlib Require Import Floats.SpecFloat.
Import ListNotations.

Set Implicit Arguments.
Local Open Scope Z_scope.

(** ** Python strings

    A Python [str] is a sequence of Unicode code points; [len] and slicing
    count code points, so a string is a list of code points here. *)

Module Str.

Definition pystr := list N.

(** An ASCII literal as a Python string. *)
Definition py (s : string) : pystr :=
  map N_of_ascii (list_ascii_of_string s).

Definition eqb (a b : pystr) : bool :=
  if list_eq_dec N.eq_dec a b then true else false.

(** [str.isspace] of one character, which is also what [\s] matches in a
    [str] pattern: the code points Unicode marks as white space. *)
Definition isspace (c : N) : bool :=
  ((9 <=? c) && (c <=? 13) || (28 <=? c) && (c <=? 32)
   || (c =? 133) || (c =? 160) || (c =? 5760)
   || (8192 <=? c) && (c <=? 8202)
   || (c =? 8232) || (c =? 8233) || (c =? 8239) || (c =? 8287)
   || (c =? 12288))%N.

Fixpoint lstrip (s : pystr) : pystr :=
  match s with
  | c :: s' => if isspace c then lstrip s' else s
  | [] => []
  end.

Definition rstrip (s : pystr) : pystr := rev (lstrip (rev s)).

(** [s.strip()] *)
Definition strip (s : pystr) : pystr := rstrip (lstrip s).

(** [str(n)] for an [int]. *)
Fixpoint digits (d : Decimal.uint) : pystr :=
  match d with
  | Decimal.Nil => []
  | Decimal.D0 d => 48%N :: digits d
  | Decimal.D1 d => 49%N :: digits d
  | Decimal.D2 d => 50%N :: digits d
  | Decimal.D3 d => 51%N :: digits d
  | Decimal.D4 d => 52%N :: digits d
  | Decimal.D5 d => 53%N :: digits d
  | Decimal.D6 d => 54%N :: digits d
  | Decimal.D7 d => 55%N :: digits d
  | Decimal.D8 d => 56%N :: digits d
  | Decimal.D9 d => 57%N :: digits d
  end.

Definition str_int (z : Z) : pystr :=
  match Z.to_int z with
  | Decimal.Pos d => digits d
  | Decimal.Neg d => 45%N :: digits d
  end.

End Str.
Import Str.

(** ** File names *)

(** The character class of the first substitution: backslash, slash,
    colon, star, question mark, double quote, angle brackets and bar. *)
Definition forbidden (c : N) : bool :=
  existsb (N.eqb c) [92; 47; 58; 42; 63; 34; 60; 62; 124]%N.

(** The first [re.sub]: each character of the class becomes an underscore. *)
Definition sub_forbidden (name : pystr) : pystr :=
  map (fun c => if forbidden c then 95%N else c) name.

(** The second [re.sub], of the pattern [\s+]: every maximal run of white
    space becomes one space.  [in_run] tells that the previous character
    belonged to the run being replaced. *)
Fixpoint sub_spaces (in_run : bool) (name : pystr) : pystr :=
  match name with
  | [] => []
  | c :: name' =>
      if isspace c
      then if in_run then sub_spaces true name'
           else 32%N :: sub_spaces true name'
      else c :: sub_spaces false name'
  end.

Definition sanitize_filename (name : pystr) : pystr :=
  let name := strip name in
  let name := sub_forbidden name in
  let name := sub_spaces false name in
  firstn 180 name.

(** A [pathlib] path, as its sequence of components; [dest_dir / f] appends
    the file name [f] as the last one. *)
Definition Path := list pystr.

Definition joinpath (dest_dir : Path) (f : pystr) : Path := dest_dir ++ [f].

Definition path_eqb (p q : Path) : bool :=
  if list_eq_dec (list_eq_dec N.eq_dec) p q then true else false.

(** The entries present in the file system; [candidate.exists()]. *)
Definition exists_ (files : list Path) (candidate : Path) : bool :=
  existsb (path_eqb candidate) files.

(** The f-string [{base_name}.{ext}]. *)
Definition plain_name (base_name ext : pystr) : pystr :=
  base_name ++ py "." ++ ext.

(** The f-string [{base_name} ({idx}).{ext}]. *)
Definition numbered_name (base_name ext : pystr) (idx : Z) : pystr :=
  base_name ++ py " (" ++ str_int idx ++ py ")." ++ ext.

(** The [while candidate.exists()] loop of [unique_path]; [fuel] bounds the
    number of iterations, [None] means that it ran out. *)
Fixpoint unique_path_loop (fuel : nat) (files : list Path) (dest_dir : Path)
    (base_name ext : pystr) (candidate : Path) (idx : Z) : option Path :=
  if exists_ files candidate then
    match fuel with
    | O => None
    | S fuel' =>
        unique_path_loop fuel' files dest_dir base_name ext
          (joinpath dest_dir (numbered_name base_name ext idx)) (idx + 1)
    end
  else Some candidate.

(** Every iteration but the last finds a different existing entry, so the
    loop body runs at most [length files] times. *)
Definition unique_path (files : list Path) (dest_dir : Path)
    (base_name ext : pystr) : option Path :=
  unique_path_loop (List.length files) files dest_dir base_name ext
    (joinpath dest_dir (plain_name base_name ext)) 1.

(** The candidates in the order [unique_path] tries them. *)
Definition candidate (dest_dir : Path) (base_name ext : pystr) (n : nat) : Path :=
  match n with
  | O => joinpath dest_dir (plain_name base_name ext)
  | S _ => joinpath dest_dir (numbered_name base_name ext (Z.of_nat n))
  end.

(** ** Python numbers

    [done / total] is the true division of two [int]s: the quotient rounded
    to the nearest binary64 number.  The binary64 operations are the ones of
    the standard library's IEEE 754 specification. *)

Module Num.

Definition prec : Z := 53.
Definition emax : Z := 1024.

(** The exceptions the worker can meet; [str(e)] is the message. *)
Inductive exn :=
| Exception (msg : pystr)
| ZeroDivisionError (msg : pystr)
| OverflowError (msg : pystr)
| ValueError (msg : pystr).

Definition str_exn (e : exn) : pystr :=
  match e with
  | Exception msg | ZeroDivisionError msg | OverflowError msg
  | ValueError msg => msg
  end.

(** A number is an [int] or a [float]. *)
Inductive num :=
| Int (z : Z)
| Float (f : spec_float).

(** [float(z)] *)
Definition float_of_int (z : Z) : spec_float :=
  binary_normalize prec emax z 0 false.

(** [a / b] on two [int]s. *)
Definition truediv (a b : Z) : exn + spec_float :=
  if b =? 0 then inl (ZeroDivisionError (py "division by zero"))
  else if a =? 0 then inr (S754_zero (b <? 0))
  else
    match SFdiv prec emax
            (S754_finite (a <? 0) (Z.to_pos (Z.abs a)) 0)
            (S754_finite (b <? 0) (Z.to_pos (Z.abs b)) 0) with
    | S754_infinity _ =>
        inl (OverflowError (py "integer division result too large for a float"))
    | q => inr q
    end.

(** [x * k] for a [float] [x] and an [int] [k]. *)
Definition mul_int (x : spec_float) (k : Z) : spec_float :=
  SFmul prec emax x (float_of_int k).

(** The exact value of a number: [m * 2^e], an infinity, or no number. *)
Inductive value :=
| NaN
| NegInf
| PosInf
| Dyadic (m e : Z).

Definition value_of (a : num) : value :=
  match a with
  | Int z => Dyadic z 0
  | Float (S754_zero _) => Dyadic 0 0
  | Float (S754_infinity s) => if s then NegInf else PosInf
  | Float S754_nan => NaN
  | Float (S754_finite s m e) => Dyadic (cond_Zopp s (Zpos m)) e
  end.

(** [a < b]; Python compares an [int] with a [float] by their values. *)
Definition lt (a b : num) : bool :=
  match value_of a, value_of b with
  | NaN, _ | _, NaN => false
  | _, NegInf => false
  | NegInf, _ => true
  | PosInf, _ => false
  | _, PosInf => true
  | Dyadic m1 e1, Dyadic m2 e2 =>
      let e := Z.min e1 e2 in
      m1 * 2 ^ (e1 - e) <? m2 * 2 ^ (e2 - e)
  end.

(** [min(a, b)] and [max(a, b)]: the first argument unless the second is
    strictly smaller (greater). *)
Definition min (a b : num) : num := if lt b a then b else a.
Definition max (a b : num) : num := if lt a b then b else a.

(** [int(a)]: truncation towards zero. *)
Definition int (a : num) : exn + Z :=
  match value_of a with
  | NaN => inl (ValueError (py "cannot convert float NaN to integer"))
  | NegInf | PosInf =>
      inl (OverflowError (py "cannot convert float infinity to integer"))
  | Dyadic m e => inr (if 0 <=? e then m * 2 ^ e else Z.quot m (2 ^ (- e)))
  end.

(** [a or b] on optional sizes: [None] and [0] are false. *)
Definition truthy (a : option Z) : bool :=
  match a with
  | Some z => negb (z =? 0)
  | None => false
  end.

Definition or (a b : option Z) : option Z := if truthy a then a else b.

End Num.
Import Num.

(** ** The media client

    [pytubefix] is outside the repository.  A stream is the record of the
    attributes the worker reads, together with what its [download] does: the
    [bytes_remaining] it reports to the progress callback, chunk after chunk,
    and the fault that ends the transfer, if any. *)

Record Stream := {
  is_progressive : bool;
  includes_audio_track : bool;
  includes_video_track : bool;
  subtype : pystr;
  mime_type : pystr;
  (** the number [order_by] reads in the attribute ([720] for 720p) *)
  resolution : option N;
  abr : option N;
  filesize : option Z;
  filesize_approx : option Z;
  chunks : list Z;
  fault : option exn
}.

(** [YouTube(link)]: the title and the streams, which the client fetches
    when they are first read. *)
Record Video := {
  title : option pystr;
  streams : exn + list Stream
}.

Record Client := {
  (** [Playlist(url).video_urls] *)
  Playlist : pystr -> exn + list pystr;
  YouTube : pystr -> exn + Video
}.

(** [StreamQuery]: [filter] keeps the streams that pass every given test,
    [order_by] drops the streams without the attribute and sorts the others
    by it in ascending order with Python's stable [sorted], [desc] reverses
    and [first] is the head, or [None]. *)
Module StreamQuery.

Definition filter (p : Stream -> bool) (q : list Stream) : list Stream :=
  List.filter p q.

Definition rank (key : Stream -> option N) (s : Stream) : N :=
  match key s with
  | Some n => n
  | None => 0%N
  end.

Fixpoint insert (key : Stream -> option N) (s : Stream) (q : list Stream)
    : list Stream :=
  match q with
  | [] => [s]
  | s' :: q' =>
      if (rank key s <=? rank key s')%N then s :: q
      else s' :: insert key s q'
  end.

Definition sorted (key : Stream -> option N) (q : list Stream) : list Stream :=
  fold_right (insert key) [] q.

Definition has (key : Stream -> option N) (s : Stream) : bool :=
  match key s with
  | Some _ => true
  | None => false
  end.

Definition order_by (key : Stream -> option N) (q : list Stream)
    : list Stream :=
  sorted key (List.filter (has key) q).

Definition desc (q : list Stream) : list Stream := rev q.

Definition first (q : list Stream) : option Stream := hd_error q.

Definition progressive (s : Stream) : bool := is_progressive s.

Definition file_extension (ext : pystr) (s : Stream) : bool :=
  Str.eqb (subtype s) ext.

Definition only_audio (s : Stream) : bool :=
  includes_audio_track s && negb (includes_video_track s).

Definition only_video (s : Stream) : bool :=
  includes_video_track s && negb (includes_audio_track s).

End StreamQuery.

(** ** The worker *)

(** The signals of [DownloadWorker], as the events a run emits. *)
Inductive Event :=
| progress (pct : Z)
| status (msg : pystr)
| finished_ok
| finished_with_cancel
| error (msg : pystr)
| item_done (title : pystr) (path : Path).

(** The attributes of a [DownloadWorker]; an event that is set is [true]. *)
Record DownloadWorker := {
  url : pystr;
  dest_dir : Path;
  mode : pystr;
  pause_event : bool;
  cancel_event : bool;
  _current_total : option Z
}.

(** [DownloadWorker(url, dest_dir, mode)] *)
Definition __init__ (url : pystr) (dest_dir : Path) (mode : pystr) : DownloadWorker :=
  {| url := url; dest_dir := dest_dir; mode := mode;
     pause_event := false; cancel_event := false; _current_total := None |}.

Definition cancel (w : DownloadWorker) : DownloadWorker :=
  {| url := url w; dest_dir := dest_dir w; mode := mode w;
     pause_event := pause_event w; cancel_event := true;
     _current_total := _current_total w |}.

Definition toggle_pause (w : DownloadWorker) : DownloadWorker :=
  {| url := url w; dest_dir := dest_dir w; mode := mode w;
     pause_event := if pause_event w then false else true;
     cancel_event := cancel_event w;
     _current_total := _current_total w |}.

Definition set_current_total (total : option Z) (w : DownloadWorker) : DownloadWorker :=
  {| url := url w; dest_dir := dest_dir w; mode := mode w;
     pause_event := pause_event w; cancel_event := cancel_event w;
     _current_total := total |}.

(** What the interface thread calls on the worker. *)
Inductive Call := Cancel | TogglePause.

Definition call (w : DownloadWorker) (c : Call) : DownloadWorker :=
  match c with
  | Cancel => cancel w
  | TogglePause => toggle_pause w
  end.

Definition calls (cs : list Call) (w : DownloadWorker) : DownloadWorker := fold_left call cs w.

(** ** The run of the worker thread

    The thread works on the worker's attributes and the file system, and
    its signals are appended to [emitted].  The interface thread runs beside
    it: [pending] lists, for each moment the worker thread is blocked in the
    client or asleep, the calls the interface thread makes meanwhile; once
    the list is used up the interface thread makes no call any more.  Such a
    moment passes when the identifier is read as a playlist, when a link is
    resolved, while a chunk arrives, when a transfer ends, and at every
    [time.sleep] of the pause loop. *)

Record State := {
  self : DownloadWorker;
  files : list Path;
  pending : list (list Call);
  emitted : list Event
}.

(** How a piece of the thread's code ends: it returns, it raises, or it
    stays in the pause loop for ever. *)
Inductive Outcome (A : Type) :=
| Return (a : A) (st : State)
| Raised (e : exn) (st : State)
| Blocked (st : State).

Arguments Return {A} a st.
Arguments Raised {A} e st.
Arguments Blocked {A} st.

Definition M (A : Type) := State -> Outcome A.

Definition ret {A} (a : A) : M A := fun st => Return a st.

Definition bind {A B} (m : M A) (k : A -> M B) : M B :=
  fun st =>
    match m st with
    | Return a st' => k a st'
    | Raised e st' => Raised e st'
    | Blocked st' => Blocked st'
    end.

Notation "x <- m ;; k" := (bind m (fun x => k))
  (at level 61, m at next level, right associativity).
Notation "m ;; k" := (bind m (fun _ => k))
  (at level 61, right associativity).

Definition raise {A} (e : exn) : M A := fun st => Raised e st.

(** [try: m except Exception as e: handler(e)] *)
Definition try_except {A} (m : M A) (handler : exn -> M A) : M A :=
  fun st =>
    match m st with
    | Raised e st' => handler e st'
    | r => r
    end.

(** A value or an exception coming from outside. *)
Definition lift {A} (r : exn + A) : M A :=
  match r with
  | inl e => raise e
  | inr a => ret a
  end.

Definition get_self : M DownloadWorker := fun st => Return (self st) st.

Definition set_self (w : DownloadWorker) (st : State) : State :=
  {| self := w; files := files st; pending := pending st;
     emitted := emitted st |}.

Definition emit (e : Event) : M unit :=
  fun st =>
    Return tt {| self := self st; files := files st; pending := pending st;
                 emitted := emitted st ++ [e] |}.

Definition create (p : Path) : M unit :=
  fun st =>
    Return tt {| self := self st;
                 files := if exists_ (files st) p then files st
                          else files st ++ [p];
                 pending := pending st; emitted := emitted st |}.

(** The worker thread is blocked for a moment: the interface thread's calls
    of that moment take effect. *)
Definition tick : M unit :=
  fun st =>
    match pending st with
    | [] => Return tt st
    | cs :: rest =>
        Return tt {| self := calls cs (self st); files := files st;
                     pending := rest; emitted := emitted st |}
    end.

(** [dest_dir.mkdir(parents=True, exist_ok=True)]: the directory and its
    missing ancestors appear; the file system is taken to allow it. *)
Fixpoint mkdir_from (done todo : Path) : M unit :=
  match todo with
  | [] => ret tt
  | c :: todo' => create (done ++ [c]) ;; mkdir_from (done ++ [c]) todo'
  end.

Definition mkdir (p : Path) : M unit := mkdir_from [] p.

(** The pause loop at the head of [_on_progress].  Each [time.sleep(0.1)]
    uses up one moment of [pending]; with the event still set and none
    left, the loop goes on for ever. *)
Fixpoint while_paused (moments : list (list Call)) (w : DownloadWorker)
    : (exn + unit) * DownloadWorker * list (list Call) + DownloadWorker :=
  if pause_event w then
    if cancel_event w
    then inl (inl (Exception (py "Cancelado durante pausa.")), w, moments)
    else
      match moments with
      | [] => inr w
      | cs :: moments' => while_paused moments' (calls cs w)
      end
  else inl (inr tt, w, moments).

Definition pause_loop : M unit :=
  fun st =>
    match while_paused (pending st) (self st) with
    | inl (r, w, moments) =>
        lift r {| self := w; files := files st; pending := moments;
                  emitted := emitted st |}
    | inr w =>
        Blocked {| self := w; files := files st; pending := [];
                   emitted := emitted st |}
    end.

(** The message [Cancelado pelo usuário.] *)
Definition msg_cancelled : pystr :=
  py "Cancelado pelo usu" ++ [225%N] ++ py "rio.".

(** The percentage [int(max(0, min(100, (done / total) * 100)))]. *)
Definition percent (done total : Z) : M Z :=
  q <- lift (truediv done total) ;;
  lift (int (Num.max (Int 0) (Num.min (Int 100) (Float (mul_int q 100))))).

Definition _on_progress (stream : Stream) (bytes_remaining : Z) : M unit :=
  pause_loop ;;
  w <- get_self ;;
  if cancel_event w then raise (Exception msg_cancelled)
  else
    let total :=
      Num.or (Num.or (_current_total w) (filesize stream))
        (filesize_approx stream) in
    if negb (truthy total) then ret tt
    else
      match total with
      | None => ret tt
      | Some total =>
          let done := total - bytes_remaining in
          pct <- percent done total ;;
          emit (progress pct)
      end.

(** [a or b] on an optional string and a string: [None] and the empty
    string are false. *)
Definition str_or (a : option pystr) (b : pystr) : pystr :=
  match a with
  | Some (c :: s) => c :: s
  | _ => b
  end.

(** An optional string inside an f-string. *)
Definition fstr (a : option pystr) : pystr :=
  match a with
  | Some s => s
  | None => py "None"
  end.

(** [mime.split(sep)[-1]] for a one-character separator. *)
Definition last_segment (sep : N) (mime : pystr) : pystr :=
  fold_left (fun seg c => if (c =? sep)%N then [] else seg ++ [c]) mime [].

(** The message [Não foi possível encontrar um stream compatível para esse
    modo.] *)
Definition msg_no_stream : pystr :=
  py "N" ++ [227%N] ++ py "o foi poss" ++ [237%N]
  ++ py "vel encontrar um stream compat" ++ [237%N]
  ++ py "vel para esse modo.".

Definition _select_stream (w : DownloadWorker) (yt : Video) : option Stream :=
  let query (body : list Stream -> option Stream) :=
    match streams yt with
    | inl _ => None
    | inr q => body q
    end in
  if Str.eqb (mode w) (py "full") then
    query (fun q =>
      let stream :=
        StreamQuery.first (StreamQuery.desc (StreamQuery.order_by resolution
          (StreamQuery.filter
             (fun s => StreamQuery.progressive s
                       && StreamQuery.file_extension (py "mp4") s) q))) in
      match stream with
      | None =>
          StreamQuery.first (StreamQuery.desc
            (StreamQuery.order_by resolution
               (StreamQuery.filter StreamQuery.progressive q)))
      | Some _ => stream
      end)
  else if Str.eqb (mode w) (py "audio") then
    query (fun q =>
      StreamQuery.first (StreamQuery.desc (StreamQuery.order_by abr
        (StreamQuery.filter StreamQuery.only_audio q))))
  else if Str.eqb (mode w) (py "video_only") then
    query (fun q =>
      StreamQuery.first (StreamQuery.desc (StreamQuery.order_by resolution
        (StreamQuery.filter StreamQuery.only_video q))))
  else None.

(** [unique_path] inside the thread: it reads the file system. *)
Definition unique_path_here (dest_dir : Path) (base_name ext : pystr)
    : M Path :=
  fun st =>
    match unique_path (files st) dest_dir base_name ext with
    | Some p => Return p st
    | None => Blocked st
    end.

(** [stream.download(output_path, filename)]: the client opens the file,
    then reports every chunk to the callback, the interface thread being
    free to call the worker while a chunk arrives and while the file is
    closed. *)
Fixpoint transfer (stream : Stream) (remaining : list Z) : M unit :=
  match remaining with
  | [] => ret tt
  | bytes_remaining :: remaining' =>
      tick ;;
      _on_progress stream bytes_remaining ;;
      transfer stream remaining'
  end.

Definition download (stream : Stream) (out_path : Path) : M unit :=
  create out_path ;;
  transfer stream (chunks stream) ;;
  match fault stream with
  | Some e => raise e
  | None => tick
  end.

Section Run.

Variable client : Client.

Definition _download_one (link : pystr) : M unit :=
  tick ;;
  yt <- lift (YouTube client link) ;;
  let title' := sanitize_filename (str_or (title yt) (py "video")) in
  w <- get_self ;;
  match _select_stream w yt with
  | None => raise (Exception msg_no_stream)
  | Some stream =>
      let ext :=
        match subtype stream with
        | [] =>
            let mime := mime_type stream in
            if existsb (N.eqb 47) mime then last_segment 47 mime
            else py "mp4"
        | ext => ext
        end in
      (fun st =>
         Return tt
           (set_self
              (set_current_total
                 (Num.or (filesize stream) (filesize_approx stream))
                 (self st)) st)) ;;
      out_path <- unique_path_here (dest_dir w) title' ext ;;
      emit (status (py "Iniciando: " ++ fstr (title yt))) ;;
      download stream out_path ;;
      emit (progress 100) ;;
      emit (item_done (str_or (title yt) title') out_path)
  end.

(** The [for] loop of [_iter_playlist]. *)
Fixpoint iter_from (count total_items : Z) (video_urls : list pystr)
    : M unit :=
  match video_urls with
  | [] => ret tt
  | url :: video_urls' =>
      let count := count + 1 in
      w <- get_self ;;
      if cancel_event w then ret tt
      else
        emit (status (py "Baixando item " ++ str_int count ++ py "/"
                      ++ str_int total_items)) ;;
        _download_one url ;;
        iter_from count total_items video_urls'
  end.

Definition _iter_playlist (p : list pystr) : M unit :=
  iter_from 0 (Z.of_nat (List.length p)) p.

Definition run : M unit :=
  try_except
    (w <- get_self ;;
     mkdir (dest_dir w) ;;
     tick ;;
     let p := Playlist client (url w) in
     let is_playlist :=
       match p with
       | inr video_urls => 0 <? Z.of_nat (List.length video_urls)
       | inl _ => false
       end in
     match p, is_playlist with
     | inr video_urls, true =>
         emit (status (py "Detectada playlist. Preparando itens...")) ;;
         _iter_playlist video_urls
     | _, _ => _download_one (url w)
     end ;;
     w <- get_self ;;
     if cancel_event w then emit finished_with_cancel
     else emit finished_ok)
    (fun e => emit (error (str_exn e))).

(** A run from the start: a fresh worker, the files already there and what
    the interface thread will do. *)
Definition start (url : pystr) (dest_dir : Path) (mode : pystr)
    (files : list Path) (pending : list (list Call)) : Outcome unit :=
  run {| self := __init__ url dest_dir mode; files := files;
         pending := pending; emitted := [] |}.

End Run.

(** The events of an outcome, and whether an event ends a run. *)
Definition events {A} (r : Outcome A) : list Event :=
  match r with
  | Return _ st | Raised _ st | Blocked st => emitted st
  end.



(** ** Vocabulary of the properties *)

(** In [s] white space only occurs as single spaces: every white-space
    character is a space and is not followed by another one. *)
Fixpoint collapsed (s : pystr) : bool :=
  match s with
  | [] => true
  | c :: s' =>
      (negb (isspace c)
       || (c =? 32)%N && match s' with
                         | c' :: _ => negb (isspace c')
                         | [] => true
                         end)
      && collapsed s'
  end.

(** [s] does not begin with white space. *)
Definition head_not_space (s : pystr) : bool :=
  match s with
  | c :: _ => negb (isspace c)
  | [] => true
  end.

(** [n] is the first candidate of [unique_path] that does not exist. *)
Definition first_free (files : list Path) (dest_dir : Path)
    (base_name ext : pystr) (n : nat) : Prop :=
  (forall i, (i < n)%nat ->
     exists_ files (candidate dest_dir base_name ext i) = true)
  /\ exists_ files (candidate dest_dir base_name ext n) = false.

(** [s] is a stream of [q] that passes the test [p], carries the attribute
    [key], and no such stream of [q] has a greater one. *)
Definition best (key : Stream -> option N) (p : Stream -> bool)
    (q : list Stream) (s : Stream) : Prop :=
  In s q /\ p s = true
  /\ exists r, key s = Some r
       /\ forall s' r', In s' q -> p s' = true -> key s' = Some r' ->
            (r' <= r)%N.

(** Some stream of [q] passes the test [p] and carries the attribute. *)
Definition ranked (key : Stream -> option N) (p : Stream -> bool)
    (q : list Stream) : Prop :=
  exists s, In s q /\ p s = true /\ key s <> None.

Definition progressive_mp4 (s : Stream) : bool :=
  StreamQuery.progressive s && StreamQuery.file_extension (py "mp4") s.

(** The floor of [m * 2^e]. *)
Definition floor (m e : Z) : Z :=
  if 0 <=? e then m * 2 ^ e else m / 2 ^ (- e).

(** The floor of a [float] clamped to [0, 100]; a value beyond every
    number counts as beyond the bound on its side. *)
Definition clamped_floor (x : spec_float) : Z :=
  match value_of (Float x) with
  | Dyadic m e => Z.max 0 (Z.min 100 (floor m e))
  | NegInf => 0
  | PosInf | NaN => 100
  end.

(** The percentage in exact arithmetic, as the specification words it:
    [floor(100 * done / total)] clamped to [0, 100]. *)
Definition exact_percent (total bytes_remaining : Z) : Z :=
  Z.max 0 (Z.min 100 (100 * (total - bytes_remaining) / total)).

(** The total [_on_progress] works with. *)
Definition effective_total (w : DownloadWorker) (stream : Stream) : option Z :=
  Num.or (Num.or (_current_total w) (filesize stream))
    (filesize_approx stream).

(** The state an outcome ends in. *)
Definition state_of {A} (r : Outcome A) : State :=
  match r with
  | Return _ st | Raised _ st | Blocked st => st
  end.

(** [st'] differs from [st] only by calls of the interface thread taken
    from [pending]. *)
Definition drifted (st st' : State) : Prop :=
  files st' = files st /\ emitted st' = emitted st
  /\ exists used,
       pending st = used ++ pending st'
       /\ self st' = calls (List.concat used) (self st).

(** [st] after [progress.emit(pct)]. *)
Definition reported (st : State) (pct : Z) : State :=
  {| self := self st; files := files st; pending := pending st;
     emitted := emitted st ++ [progress pct] |}.





(** [st'] comes after [st] in a run: what was emitted is still there, the
    request of the run is the same, and a cancellation is not forgotten. *)
Definition follows (st st' : State) : Prop :=
  (exists evs, emitted st' = emitted st ++ evs)
  /\ url (self st') = url (self st)
  /\ dest_dir (self st') = dest_dir (self st)
  /\ mode (self st') = mode (self st)
  /\ (cancel_event (self st) = true -> cancel_event (self st') = true).

(** Whatever [m] does, the state it ends in follows the one it starts in. *)
Definition steady {A} (m : M A) : Prop :=
  forall st, follows st (state_of (m st)).








(** The identifier is not a playlist: reading it as one fails or yields no
    item. *)
Definition not_a_playlist (p : exn + list pystr) : Prop :=
  match p with
  | inl _ => True
  | inr video_urls => video_urls = []
  end.

(** How [run] ends once the items are dealt with: one terminal event, chosen
    by the outcome of the items and the cancellation flag. *)
Definition finish (r : Outcome unit) : Outcome unit :=
  match r with
  | Return _ st =>
      emit (if cancel_event (self st) then finished_with_cancel
            else finished_ok) st
  | Raised e st => emit (error (str_exn e)) st
  | Blocked st => Blocked st
  end.

(** ** Sample data *)

Module Demo.

Definition variant (prog audio video : bool) (res rate : option N)
    (size : option Z) (reports : list Z) : Stream :=
  {| is_progressive := prog; includes_audio_track := audio;
     includes_video_track := video; subtype := py "mp4";
     mime_type := py "video/mp4"; resolution := res; abr := rate;
     filesize := size; filesize_approx := None;
     chunks := reports; fault := None |}.

Definition mp4_480 : Stream :=
  variant true true true (Some 480%N) None (Some 100) [50; 0].

Definition mp4_720 : Stream :=
  variant true true true (Some 720%N) None (Some 100) [71; 0].

Definition video_1080 : Stream :=
  variant false false true (Some 1080%N) None (Some 100) [50; 0].

(** A stream whose size is known to be zero. *)
Definition hollow : Stream :=
  {| is_progressive := true; includes_audio_track := true;
     includes_video_track := true; subtype := py "mp4";
     mime_type := py "video/mp4"; resolution := Some 360%N; abr := None;
     filesize := None; filesize_approx := Some 0;
     chunks := [0]; fault := None |}.

Definition video : Video :=
  {| title := Some (py "My Video");
     streams := inr [mp4_480; mp4_720; video_1080] |}.

(** A client that knows one playlist, of two videos, and resolves every
    link to [video]. *)
Definition client : Client :=
  {| Playlist := fun url =>
       if Str.eqb url (py "list") then inr [py "first"; py "second"]
       else inl (Exception (py "not a playlist"));
     YouTube := fun _ => inr video |}.



(** A stream whose transfer makes no report, and a client that resolves
    every link to a video offering only that stream. *)
Definition silent : Stream :=
  variant true true true (Some 360%N) None (Some 100) [].

Definition instant : Client :=
  {| Playlist := fun _ => inl (Exception (py "not a playlist"));
     YouTube := fun _ =>
       inr {| title := Some (py "My Video"); streams := inr [silent] |} |}.

Definition out : Path := [py "out"].

Definition idle (url : pystr) : State :=
  {| self := __init__ url out (py "full"); files := []; pending := [];
     emitted := [] |}.

End Demo.

(** * Properties *)

(** ** File names *)

Lemma forbidden_sub (name : pystr) :
  Forall (fun c => forbidden c = false) (sub_forbidden name).
Proof.
  unfold sub_forbidden. apply Forall_forall. intros c Hc.
  apply in_map_iff in Hc. destruct Hc as [c0 [<- _]].
  destruct (forbidden c0) eqn:E; [reflexivity | exact E].
Qed.

Lemma forbidden_spaces (b : bool) (name : pystr) :
  Forall (fun c => forbidden c = false) name ->
  Forall (fun c => forbidden c = false) (sub_spaces b name).
Proof.
  intros H. revert b. induction H as [|c name Hc _ IH]; intros b; simpl.
  - constructor.
  - destruct (isspace c), b; auto.
Qed.

Lemma Forall_firstn {A} (P : A -> Prop) (n : nat) (l : list A) :
  Forall P l -> Forall P (firstn n l).
Proof.
  intros H. revert n. induction H; intros [|n]; simpl; auto.
Qed.


Lemma collapsed_spaces (name : pystr) :
  forall b, collapsed (sub_spaces b name) = true
            /\ (b = true -> head_not_space (sub_spaces b name) = true).
Proof.
  induction name as [|c name IH]; intros b; simpl.
  - split; reflexivity.
  - destruct (isspace c) eqn:Ec.
    + destruct b.
      * apply IH.
      * destruct (IH true) as [H1 H2]. split; [|discriminate].
        simpl. rewrite H1, andb_true_r.
        specialize (H2 eq_refl). unfold head_not_space in H2.
        rewrite H2. reflexivity.
    + destruct (IH false) as [H1 _]. split.
      * simpl. rewrite Ec, H1. reflexivity.
      * intros _. simpl. rewrite Ec. reflexivity.
Qed.

Lemma collapsed_firstn (n : nat) : forall s,
  collapsed s = true -> collapsed (firstn n s) = true.
Proof.
  induction n as [|n IH]; intros [|c s] H; simpl in *; try reflexivity.
  apply andb_true_iff in H. destruct H as [H1 H2].
  rewrite (IH _ H2), andb_true_r.
  apply orb_true_iff in H1. destruct H1 as [H1|H1].
  - rewrite H1. reflexivity.
  - apply andb_true_iff in H1. destruct H1 as [H1 H3]. rewrite H1.
    destruct n, s; simpl; try rewrite H3; auto using orb_true_r.
Qed.

(** C6: whatever the title, the sanitized name has none of the characters
    backslash, slash, colon, star, question mark, double quote, angle
    brackets and bar, its white space is made of single spaces only, and it
    has at most 180 characters. *)
Theorem sanitize_filename_safe (title : pystr) :
  Forall (fun c => forbidden c = false) (sanitize_filename title)
  /\ collapsed (sanitize_filename title) = true
  /\ (List.length (sanitize_filename title) <= 180)%nat.
Proof.
  unfold sanitize_filename. repeat split.
  - apply Forall_firstn, forbidden_spaces, forbidden_sub.
  - apply collapsed_firstn, collapsed_spaces.
  - apply firstn_le_length.
Qed.

Lemma digits_inj (d d' : Decimal.uint) : digits d = digits d' -> d = d'.
Proof.
  revert d'. induction d; intros [] H; simpl in H;
    try discriminate; try reflexivity;
    injection H as H; f_equal; auto.
Qed.

Lemma digits_no_minus (d d' : Decimal.uint) : digits d <> 45%N :: digits d'.
Proof. destruct d; simpl; discriminate. Qed.

Lemma str_int_inj (a b : Z) : str_int a = str_int b -> a = b.
Proof.
  unfold str_int. intros H. apply to_int_inj.
  destruct (Z.to_int a) as [d|d], (Z.to_int b) as [d'|d'].
  - f_equal. now apply digits_inj.
  - now apply digits_no_minus in H.
  - symmetry in H. now apply digits_no_minus in H.
  - injection H as H. f_equal. now apply digits_inj.
Qed.

Section Candidates.

Variables (files : list Path) (dest_dir : Path) (base_name ext : pystr).

Let cand := candidate dest_dir base_name ext.

Lemma candidate_inj (i j : nat) : cand i = cand j -> i = j.
Proof.
  unfold cand, candidate, joinpath, plain_name, numbered_name.
  destruct i, j; intros H; apply app_inj_tail in H; destruct H as [_ H];
    apply app_inv_head in H; try reflexivity; try discriminate.
  apply (app_inv_head (py " (")) in H.
  apply app_inv_tail in H. apply str_int_inj in H. lia.
Qed.

Lemma exists_In (p : Path) : exists_ files p = true <-> In p files.
Proof.
  unfold exists_, path_eqb. rewrite existsb_exists. split.
  - intros [q [Hq H]].
    destruct (list_eq_dec (list_eq_dec N.eq_dec) p q); [now subst | discriminate].
  - intros H. exists p. split; [exact H|].
    destruct (list_eq_dec (list_eq_dec N.eq_dec) p p); [reflexivity | contradiction].
Qed.

Let first_free := first_free files dest_dir base_name ext.

Lemma first_free_unique (n m : nat) : first_free n -> first_free m -> n = m.
Proof.
  intros [Hn Hn'] [Hm Hm'].
  destruct (Nat.lt_trichotomy n m) as [H|[H|H]]; [|exact H|].
  - rewrite (Hm _ H) in Hn'. discriminate.
  - rewrite (Hn _ H) in Hm'. discriminate.
Qed.

Lemma search (m : nat) :
  (exists n, (n <= m)%nat /\ first_free n)
  \/ (forall i, (i <= m)%nat -> exists_ files (cand i) = true).
Proof.
  induction m as [|m [[n [Hn Hf]]|IH]].
  - destruct (exists_ files (cand 0)) eqn:E.
    + right. intros i Hi. now replace i with 0%nat by lia.
    + left. exists 0%nat. split; [lia|]. split; [lia | exact E].
  - left. exists n. split; [lia | exact Hf].
  - destruct (exists_ files (cand (S m))) eqn:E.
    + right. intros i Hi.
      destruct (Nat.eq_dec i (S m)) as [->|]; [exact E | apply IH; lia].
    + left. exists (S m). split; [lia|]. split; [|exact E].
      intros i Hi. apply IH. lia.
Qed.

Lemma some_free : exists n, (n <= List.length files)%nat /\ first_free n.
Proof.
  destruct (search (List.length files)) as [H|H]; [exact H|exfalso].
  assert (Hnd : NoDup (map cand (seq 0 (S (List.length files))))).
  { apply Finite.Injective_map_NoDup; [|apply seq_NoDup].
    intros i j. apply candidate_inj. }
  assert (Hin : incl (map cand (seq 0 (S (List.length files)))) files).
  { intros p Hp. apply in_map_iff in Hp. destruct Hp as [i [<- Hi]].
    apply in_seq in Hi. apply exists_In, H. lia. }
  pose proof (NoDup_incl_length Hnd Hin) as Hl.
  rewrite length_map, length_seq in Hl. lia.
Qed.

Lemma loop_finds (j : nat) : forall fuel k,
  (j <= fuel)%nat ->
  (forall i, (k <= i < k + j)%nat -> exists_ files (cand i) = true) ->
  exists_ files (cand (k + j)) = false ->
  unique_path_loop fuel files dest_dir base_name ext (cand k) (Z.of_nat k + 1)
  = Some (cand (k + j)).
Proof.
  induction j as [|j IH]; intros fuel k Hfuel Hex Hfree.
  - rewrite Nat.add_0_r in *. destruct fuel; simpl; now rewrite Hfree.
  - destruct fuel as [|fuel]; [lia|]. simpl.
    rewrite Hex by lia.
    replace (Z.of_nat k + 1) with (Z.of_nat (S k)) by lia.
    change (joinpath dest_dir (numbered_name base_name ext (Z.of_nat (S k))))
      with (cand (S k)).
    replace (Z.of_nat (S k) + 1) with (Z.of_nat (S k) + 1) by lia.
    rewrite (IH fuel (S k)).
    + f_equal. f_equal. lia.
    + lia.
    + intros i Hi. apply Hex. lia.
    + replace (S k + j)%nat with (k + S j)%nat by lia. exact Hfree.
Qed.

Lemma unique_path_first_free (n : nat) :
  first_free n ->
  unique_path files dest_dir base_name ext = Some (cand n).
Proof.
  intros Hn.
  destruct some_free as [m [Hm Hf]].
  rewrite (first_free_unique Hn Hf).
  unfold unique_path.
  change (joinpath dest_dir (plain_name base_name ext)) with (cand 0).
  change 1 with (Z.of_nat 0 + 1).
  destruct Hf as [Hex Hfree].
  apply (loop_finds (j := m) (k := 0)); auto.
  intros i Hi. apply Hex. lia.
Qed.

End Candidates.


(** C7: whatever the files present, the base name and the extension,
    [unique_path] returns a path, this path does not exist, and when exactly
    the first [n] candidates exist it is the candidate after them. *)
Theorem unique_path_fresh (files : list Path) (dest_dir : Path)
    (base_name ext : pystr) :
  exists p,
    unique_path files dest_dir base_name ext = Some p
    /\ exists_ files p = false
    /\ forall n,
         (forall i, (i < n)%nat ->
            exists_ files (candidate dest_dir base_name ext i) = true) ->
         exists_ files (candidate dest_dir base_name ext n) = false ->
         p = candidate dest_dir base_name ext n.
Proof.
  destruct (some_free files dest_dir base_name ext) as [m [_ Hf]].
  exists (candidate dest_dir base_name ext m).
  split; [now apply unique_path_first_free|].
  split; [apply Hf|].
  intros n Hex Hfree. f_equal.
  apply (first_free_unique Hf). split; assumption.
Qed.

Lemma unique_path_fresh_witness :
  unique_path [Demo.out ++ [py "My Video.mp4"]] Demo.out (py "My Video")
    (py "mp4")
  = Some (Demo.out ++ [py "My Video (1).mp4"]).
Proof.
  destruct (unique_path_fresh [Demo.out ++ [py "My Video.mp4"]] Demo.out
              (py "My Video") (py "mp4")) as (p & -> & _ & H).
  f_equal. apply (H 1%nat).
  - intros [|i] Hi; [reflexivity | lia].
  - reflexivity.
Defined.

(** ** The choice of a stream *)

Section Ranking.

Variable key : Stream -> option N.

Let le (a b : Stream) : Prop :=
  (StreamQuery.rank key a <= StreamQuery.rank key b)%N.

Lemma insert_perm (s : Stream) (q : list Stream) :
  Permutation (StreamQuery.insert key s q) (s :: q).
Proof.
  induction q as [|s' q IH]; simpl.
  - reflexivity.
  - destruct (_ <=? _)%N; [reflexivity|].
    rewrite IH. apply perm_swap.
Qed.

Lemma sorted_perm (q : list Stream) : Permutation (StreamQuery.sorted key q) q.
Proof.
  induction q as [|s q IH]; simpl.
  - reflexivity.
  - rewrite insert_perm. now constructor.
Qed.

Lemma insert_ascending (s : Stream) (q : list Stream) :
  StronglySorted le q -> StronglySorted le (StreamQuery.insert key s q).
Proof.
  induction 1 as [|s' q Hq IH Hall]; simpl.
  - repeat constructor.
  - destruct (_ <=? _)%N eqn:E.
    + apply N.leb_le in E. constructor; [now constructor|].
      constructor; [exact E|].
      eapply Forall_impl; [|exact Hall]. unfold le. intros; lia.
    + apply N.leb_gt in E. constructor; [exact IH|].
      rewrite insert_perm. constructor; [unfold le; lia | exact Hall].
Qed.

Lemma sorted_ascending (q : list Stream) :
  StronglySorted le (StreamQuery.sorted key q).
Proof.
  induction q; simpl; [constructor | now apply insert_ascending].
Qed.

Lemma greatest_last (q : list Stream) (s : Stream) :
  StronglySorted le q -> hd_error (rev q) = Some s ->
  In s q /\ forall s', In s' q -> le s' s.
Proof.
  induction 1 as [|a q Hq IH Hall]; simpl; [discriminate|].
  destruct (rev q) as [|b l] eqn:E; simpl.
  - intros [= <-]. apply (f_equal (@rev _)) in E. rewrite rev_involutive in E.
    subst q. split; [now left|]. intros s' [<-|[]]. unfold le. lia.
  - intros [= <-]. destruct (IH eq_refl) as [Hin Hmax].
    split; [now right|]. intros s' [<-|H'].
    + rewrite Forall_forall in Hall. now apply Hall.
    + now apply Hmax.
Qed.

Lemma pick (p : Stream -> bool) (q : list Stream) :
  match StreamQuery.first (StreamQuery.desc
          (StreamQuery.order_by key (StreamQuery.filter p q))) with
  | Some s => best key p q s
  | None => ~ ranked key p q
  end.
Proof.
  unfold StreamQuery.first, StreamQuery.desc, StreamQuery.order_by,
    StreamQuery.filter.
  set (l := List.filter (StreamQuery.has key) (List.filter p q)).
  assert (Hl : forall s, In s (StreamQuery.sorted key l)
                         <-> In s q /\ p s = true /\ key s <> None).
  { intros s. rewrite (Permutation_in' eq_refl (sorted_perm l)).
    unfold l. rewrite !filter_In. unfold StreamQuery.has.
    destruct (key s); intuition congruence. }
  destruct (hd_error (rev (StreamQuery.sorted key l))) as [s|] eqn:E.
  - destruct (greatest_last (sorted_ascending l) E) as [Hin Hmax].
    apply Hl in Hin. destruct Hin as [Hq [Hp Hk]].
    split; [exact Hq|]. split; [exact Hp|].
    destruct (key s) as [r|] eqn:Er; [|contradiction].
    exists r. split; [reflexivity|]. intros s' r' Hq' Hp' Hk'.
    assert (H' : In s' (StreamQuery.sorted key l)) by (apply Hl; intuition congruence).
    apply Hmax in H'. unfold le, StreamQuery.rank in H'.
    now rewrite Hk', Er in H'.
  - intros [s [Hq [Hp Hk]]].
    assert (H' : In s (StreamQuery.sorted key l)) by (apply Hl; auto).
    destruct (StreamQuery.sorted key l) as [|a l'] eqn:El; [contradiction|].
    simpl in E. destruct (rev l'); discriminate.
Qed.

End Ranking.

Lemma eqb_eq (a b : pystr) : Str.eqb a b = true <-> a = b.
Proof.
  unfold Str.eqb. destruct (list_eq_dec N.eq_dec a b); intuition discriminate.
Qed.

(** C5: in mode [full], [_select_stream] returns a progressive MP4 stream of
    the highest resolution when some progressive MP4 stream has a resolution;
    failing that, a progressive stream of the highest resolution in whatever
    container when some progressive stream has one; failing that, [None].
    For a progressive MP4 at 480p, a progressive MP4 at 720p and a video at
    1080p that is not progressive, it returns the one at 720p. *)
Theorem select_stream_full :
  (forall (w : DownloadWorker) (yt : Video) (q : list Stream),
     mode w = py "full" -> streams yt = inr q ->
     (ranked resolution progressive_mp4 q ->
      exists s, _select_stream w yt = Some s
                /\ best resolution progressive_mp4 q s)
     /\ (~ ranked resolution progressive_mp4 q ->
         ranked resolution StreamQuery.progressive q ->
         exists s, _select_stream w yt = Some s
                   /\ best resolution StreamQuery.progressive q s)
     /\ (~ ranked resolution StreamQuery.progressive q ->
         _select_stream w yt = None))
  /\ (forall (w : DownloadWorker) (yt : Video) (a b c : Stream),
        mode w = py "full" -> streams yt = inr [a; b; c] ->
        is_progressive a = true -> subtype a = py "mp4" ->
        resolution a = Some 480%N ->
        is_progressive b = true -> subtype b = py "mp4" ->
        resolution b = Some 720%N ->
        is_progressive c = false -> resolution c = Some 1080%N ->
        _select_stream w yt = Some b).
Proof.
  assert (General : forall (w : DownloadWorker) (yt : Video) (q : list Stream),
     mode w = py "full" -> streams yt = inr q ->
     (ranked resolution progressive_mp4 q ->
      exists s, _select_stream w yt = Some s
                /\ best resolution progressive_mp4 q s)
     /\ (~ ranked resolution progressive_mp4 q ->
         ranked resolution StreamQuery.progressive q ->
         exists s, _select_stream w yt = Some s
                   /\ best resolution StreamQuery.progressive q s)
     /\ (~ ranked resolution StreamQuery.progressive q ->
         _select_stream w yt = None)).
  { intros w yt q Hmode Hq. unfold _select_stream. rewrite Hmode, Hq.
    change (Str.eqb (py "full") (py "full")) with true. cbv iota.
    pose proof (pick resolution progressive_mp4 q) as H1.
    pose proof (pick resolution StreamQuery.progressive q) as H2.
    fold progressive_mp4.
    destruct (StreamQuery.first (StreamQuery.desc (StreamQuery.order_by
                resolution (StreamQuery.filter progressive_mp4 q)))) as [s1|].
    - split; [intros _; now exists s1|]. split.
      + intros Hn. exfalso. apply Hn. destruct H1 as [? [? [r [? _]]]].
        exists s1. intuition congruence.
      + intros Hn. exfalso. apply Hn. destruct H1 as [? [Hp [r [? _]]]].
        exists s1. unfold progressive_mp4 in Hp.
        apply andb_true_iff in Hp. intuition congruence.
    - split; [intros; contradiction|].
      destruct (StreamQuery.first (StreamQuery.desc (StreamQuery.order_by
                  resolution (StreamQuery.filter StreamQuery.progressive q))))
        as [s2|].
      + split; [intros _ _; now exists s2|].
        intros Hn. exfalso. apply Hn. destruct H2 as [? [? [r [? _]]]].
        exists s2. intuition congruence.
      + split; [intros; contradiction | reflexivity]. }
  split; [exact General|].
  intros w yt a b c Hmode Hq Ha1 Ha2 Ha3 Hb1 Hb2 Hb3 Hc1 Hc3.
  destruct (General w yt _ Hmode Hq) as [H _].
  assert (Hmp4 : forall s, is_progressive s = true -> subtype s = py "mp4" ->
                           progressive_mp4 s = true).
  { intros s Hs1 Hs2. unfold progressive_mp4, StreamQuery.progressive,
      StreamQuery.file_extension. rewrite Hs1, Hs2. reflexivity. }
  destruct H as [s [Hs [Hin [Hp [r [Hr Hmax]]]]]].
  { exists a. split; [now left|]. split; [auto | congruence]. }
  rewrite Hs. f_equal.
  assert (Hb : (720 <= r)%N).
  { apply (Hmax b); simpl; auto. }
  destruct Hin as [<-|[<-|[<-|[]]]].
  - rewrite Ha3 in Hr. injection Hr as <-. lia.
  - reflexivity.
  - unfold progressive_mp4, StreamQuery.progressive in Hp.
    rewrite Hc1 in Hp. discriminate.
Qed.

Lemma select_stream_full_witness :
  _select_stream (self (Demo.idle (py "watch"))) Demo.video
  = Some Demo.mp4_720.
Proof.
  apply (proj2 select_stream_full) with (a := Demo.mp4_480)
    (c := Demo.video_1080); reflexivity.
Defined.

(** ** The calls of the interface thread *)

Lemma call_fields (c : Call) (w : DownloadWorker) :
  url (call w c) = url w /\ dest_dir (call w c) = dest_dir w
  /\ mode (call w c) = mode w
  /\ _current_total (call w c) = _current_total w
  /\ (cancel_event w = true -> cancel_event (call w c) = true).
Proof. destruct c; simpl; auto. Qed.

Lemma calls_fields (cs : list Call) : forall w,
  url (calls cs w) = url w /\ dest_dir (calls cs w) = dest_dir w
  /\ mode (calls cs w) = mode w
  /\ _current_total (calls cs w) = _current_total w
  /\ (cancel_event w = true -> cancel_event (calls cs w) = true).
Proof.
  unfold calls. induction cs as [|c cs IH]; intros w; simpl; [auto 6|].
  destruct (IH (call w c)) as (H1 & H2 & H3 & H4 & H5).
  destruct (call_fields c w) as (G1 & G2 & G3 & G4 & G5).
  repeat split; try congruence. auto.
Qed.

Lemma calls_app (cs cs' : list Call) (w : DownloadWorker) :
  calls (cs ++ cs') w = calls cs' (calls cs w).
Proof. unfold calls. apply fold_left_app. Qed.

Lemma drifted_refl (st : State) : drifted st st.
Proof. repeat split. now exists []. Qed.

Lemma drifted_trans (st1 st2 st3 : State) :
  drifted st1 st2 -> drifted st2 st3 -> drifted st1 st3.
Proof.
  intros (F1 & E1 & u1 & P1 & S1) (F2 & E2 & u2 & P2 & S2).
  repeat split; try congruence.
  exists (u1 ++ u2). rewrite concat_app, calls_app, <- app_assoc.
  split; congruence.
Qed.

Lemma drifted_fields (st st' : State) :
  drifted st st' ->
  url (self st') = url (self st) /\ dest_dir (self st') = dest_dir (self st)
  /\ mode (self st') = mode (self st)
  /\ _current_total (self st') = _current_total (self st)
  /\ (cancel_event (self st) = true -> cancel_event (self st') = true).
Proof.
  intros (_ & _ & u & _ & ->). apply calls_fields.
Qed.

Lemma tick_drifted (st : State) :
  exists st', tick st = Return tt st' /\ drifted st st'.
Proof.
  unfold tick. destruct (pending st) as [|cs rest] eqn:E.
  - exists st. split; [reflexivity | apply drifted_refl].
  - eexists. split; [reflexivity|]. repeat split; simpl.
    exists [cs]. simpl. rewrite List.app_nil_r. auto.
Qed.

Lemma while_paused_spec (moments : list (list Call)) : forall w,
  match while_paused moments w with
  | inl (r, w', moments') =>
      (exists used, moments = used ++ moments' /\ w' = calls (List.concat used) w)
      /\ match r with
         | inl e => e = Exception (py "Cancelado durante pausa.")
                    /\ pause_event w' = true /\ cancel_event w' = true
         | inr _ => pause_event w' = false
         end
  | inr w' =>
      w' = calls (List.concat moments) w
      /\ pause_event w' = true /\ cancel_event w' = false
  end.
Proof.
  induction moments as [|cs moments IH]; intros w; simpl.
  - destruct (pause_event w) eqn:Ep; [destruct (cancel_event w) eqn:Ec|].
    + split; [now exists []|auto].
    + auto.
    + split; [now exists []|auto].
  - destruct (pause_event w) eqn:Ep; [destruct (cancel_event w) eqn:Ec|].
    + split; [now exists []|auto].
    + specialize (IH (calls cs w)).
      destruct (while_paused moments (calls cs w)) as [[[r w'] moments']|w'].
      * destruct IH as [(used & -> & ->) IH]. split; [|exact IH].
        exists (cs :: used). simpl. now rewrite calls_app.
      * simpl. rewrite calls_app. exact IH.
    + split; [now exists []|auto].
Qed.

Lemma pause_loop_spec (st : State) :
  match pause_loop st with
  | Return _ st' => drifted st st' /\ pause_event (self st') = false
  | Raised e st' =>
      drifted st st' /\ e = Exception (py "Cancelado durante pausa.")
      /\ cancel_event (self st') = true
  | Blocked st' =>
      drifted st st' /\ pending st' = []
      /\ pause_event (self st') = true /\ cancel_event (self st') = false
  end.
Proof.
  unfold pause_loop. pose proof (while_paused_spec (pending st) (self st)) as H.
  destruct (while_paused (pending st) (self st)) as [[[r w'] moments']|w'].
  - destruct H as [(used & Hu & ->) H]. destruct r as [e|[]]; simpl.
    + destruct H as (-> & _ & Hc). repeat split; auto. now exists used.
    + repeat split; auto. now exists used.
  - destruct H as (-> & Hp & Hc). simpl. repeat split; auto.
    exists (pending st). simpl. now rewrite List.app_nil_r.
Qed.

(** ** Percentages *)

Lemma clamped_floor_range (x : spec_float) : 0 <= clamped_floor x <= 100.
Proof.
  unfold clamped_floor. destruct (value_of (Float x)); lia.
Qed.

Lemma lt_float_int (s : bool) (m : positive) (e k : Z) :
  lt (Float (S754_finite s m e)) (Int k)
  = (cond_Zopp s (Z.pos m) * 2 ^ (e - Z.min e 0) <? k * 2 ^ (0 - Z.min e 0)).
Proof. reflexivity. Qed.

Lemma lt_int_float (s : bool) (m : positive) (e k : Z) :
  lt (Int k) (Float (S754_finite s m e))
  = (k * 2 ^ (0 - Z.min 0 e) <? cond_Zopp s (Z.pos m) * 2 ^ (e - Z.min 0 e)).
Proof. reflexivity. Qed.

Lemma int_float (s : bool) (m : positive) (e : Z) :
  int (Float (S754_finite s m e))
  = inr (if 0 <=? e then cond_Zopp s (Z.pos m) * 2 ^ e
         else Z.quot (cond_Zopp s (Z.pos m)) (2 ^ (- e))).
Proof. reflexivity. Qed.

Lemma scales (e : Z) :
  (0 <= e /\ 2 ^ (e - Z.min e 0) = 2 ^ e /\ 2 ^ (0 - Z.min e 0) = 1
   /\ 0 < 2 ^ e /\ (0 <=? e) = true)
  \/ (e < 0 /\ 2 ^ (e - Z.min e 0) = 1 /\ 2 ^ (0 - Z.min e 0) = 2 ^ (- e)
      /\ 0 < 2 ^ (- e) /\ (0 <=? e) = false).
Proof.
  destruct (Z.le_gt_cases 0 e) as [H|H]; [left|right].
  - rewrite Z.min_r by lia. rewrite Z.sub_0_r, Z.pow_0_r.
    repeat split; auto; [apply Z.pow_pos_nonneg; lia | now apply Z.leb_le].
  - rewrite Z.min_l by lia. rewrite Z.sub_diag, Z.pow_0_r.
    repeat split; auto; [apply Z.pow_pos_nonneg; lia | now apply Z.leb_gt].
Qed.

Lemma int_clamp (x : spec_float) :
  int (Num.max (Int 0) (Num.min (Int 100) (Float x))) = inr (clamped_floor x).
Proof.
  destruct x as [s|[|]| |s m e]; try reflexivity.
  unfold clamped_floor, floor. cbn [value_of].
  unfold Num.min. rewrite lt_float_int.
  set (v := cond_Zopp s (Z.pos m)).
  destruct (_ <? _) eqn:E1.
  - apply Z.ltb_lt in E1. unfold Num.max. rewrite lt_int_float.
    rewrite (Z.min_comm 0 e). fold v.
    destruct (_ <? _) eqn:E2.
    + apply Z.ltb_lt in E2. rewrite int_float. fold v. f_equal.
      destruct (scales e) as [(He & H1 & H2 & Hp & H3)|(He & H1 & H2 & Hp & H3)];
        rewrite H1, H2 in *; rewrite H3; [lia|].
      rewrite Z.quot_div_nonneg by lia.
      assert (v / 2 ^ (- e) < 100) by (apply Z.div_lt_upper_bound; lia).
      assert (0 <= v / 2 ^ (- e)) by (apply Z.div_pos; lia).
      lia.
    + apply Z.ltb_ge in E2. change (int (Int 0)) with (@inr exn Z 0). f_equal.
      destruct (scales e) as [(He & H1 & H2 & Hp & H3)|(He & H1 & H2 & Hp & H3)];
        rewrite H1, H2 in *; rewrite H3; [nia|].
      assert (v / 2 ^ (- e) <= 0).
      { apply Z.lt_succ_r, Z.div_lt_upper_bound; lia. }
      lia.
  - apply Z.ltb_ge in E1.
    change (int (Num.max (Int 0) (Int 100))) with (@inr exn Z 100). f_equal.
    destruct (scales e) as [(He & H1 & H2 & Hp & H3)|(He & H1 & H2 & Hp & H3)];
      rewrite H1, H2 in *; rewrite H3; [lia|].
    assert (100 <= v / 2 ^ (- e)) by (apply Z.div_le_lower_bound; lia).
    lia.
Qed.

(** ** The progress callback *)

Lemma truediv_nonzero (a b : Z) :
  b <> 0 ->
  (exists q, truediv a b = inr q)
  \/ (exists msg, truediv a b = inl (OverflowError msg)).
Proof.
  intros Hb. unfold truediv. apply Z.eqb_neq in Hb. rewrite Hb.
  destruct (a =? 0); [left; eauto|].
  destruct (SFdiv _ _ _ _); eauto.
Qed.

Lemma truthy_some (total : option Z) :
  truthy total = true -> exists t, total = Some t /\ t <> 0.
Proof.
  destruct total as [t|]; simpl; [|discriminate].
  intros H. exists t. split; [reflexivity|].
  intros ->. discriminate.
Qed.

Lemma on_progress_spec (stream : Stream) (bytes_remaining : Z) (st : State) :
  let total := effective_total (self st) stream in
  match _on_progress stream bytes_remaining st with
  | Return _ st' =>
      exists st1, drifted st st1
        /\ pause_event (self st1) = false /\ cancel_event (self st1) = false
        /\ ((truthy total = false /\ st' = st1)
            \/ exists t q, total = Some t /\ t <> 0
                 /\ truediv (t - bytes_remaining) t = inr q
                 /\ st' = reported st1 (clamped_floor (mul_int q 100)))
  | Raised e st' =>
      drifted st st'
      /\ ((cancel_event (self st') = true
           /\ (e = Exception (py "Cancelado durante pausa.")
               \/ e = Exception msg_cancelled))
          \/ (cancel_event (self st') = false
              /\ exists t msg, total = Some t /\ t <> 0
                   /\ truediv (t - bytes_remaining) t
                      = inl (OverflowError msg) /\ e = OverflowError msg))
  | Blocked st' =>
      drifted st st' /\ pending st' = []
      /\ pause_event (self st') = true /\ cancel_event (self st') = false
  end.
Proof.
  intros total. unfold _on_progress, bind.
  pose proof (pause_loop_spec st) as H.
  destruct (pause_loop st) as [[] st1|e st1|st1].
  - destruct H as [Hd Hp]. unfold get_self.
    destruct (cancel_event (self st1)) eqn:Ec.
    + simpl. split; [exact Hd|]. left. auto.
    + destruct (drifted_fields Hd) as (_ & _ & _ & Ht & _).
      fold (effective_total (self st1) stream).
      replace (effective_total (self st1) stream) with total
        by (unfold total, effective_total; now rewrite Ht).
      destruct (truthy total) eqn:Et; simpl.
      * destruct (truthy_some _ Et) as (t & Htot & Hnz). rewrite Htot.
        unfold percent, bind.
        destruct (truediv_nonzero (t - bytes_remaining) Hnz) as [[q Hq]|[msg Hq]];
          rewrite Hq; simpl.
        -- rewrite int_clamp. simpl. exists st1.
           split; [exact Hd|]. split; [exact Hp|]. split; [exact Ec|].
           right. exists t, q. auto.
        -- split; [exact Hd|]. right. split; [exact Ec|]. exists t, msg. auto.
      * exists st1.
        split; [exact Hd|]. split; [exact Hp|]. split; [exact Ec|].
        left. split; [reflexivity|]. now destruct total.
  - destruct H as (Hd & -> & Hc). split; [exact Hd|]. left. auto.
  - exact H.
Qed.

(** C4, amended: when no total is known, or the total is zero,
    [_on_progress] emits nothing; otherwise it emits at most one [progress]
    event, and one whenever it returns, whose value is the floor of the
    binary64 product [(done / total) * 100] clamped to [0, 100]; every
    percentage it emits lies in [0, 100]. *)
Theorem on_progress_percent (stream : Stream) (bytes_remaining : Z)
    (st : State) :
  let total := effective_total (self st) stream in
  let r := _on_progress stream bytes_remaining st in
  (truthy total = false -> events r = emitted st)
  /\ (events r = emitted st
      \/ exists t q, total = Some t /\ t <> 0
           /\ truediv (t - bytes_remaining) t = inr q
           /\ events r
              = emitted st ++ [progress (clamped_floor (mul_int q 100))])
  /\ (truthy total = true -> forall st', r = Return tt st' ->
      exists pct, events r = emitted st ++ [progress pct])
  /\ (forall pct, In (progress pct) (events r) ->
      In (progress pct) (emitted st) \/ 0 <= pct <= 100).
Proof.
  intros total r.
  pose proof (on_progress_spec stream bytes_remaining st) as H.
  fold total r in H.
  assert (Cases : events r = emitted st
      \/ exists t q, total = Some t /\ t <> 0
           /\ truediv (t - bytes_remaining) t = inr q
           /\ r = Return tt (state_of r)
           /\ events r
              = emitted st ++ [progress (clamped_floor (mul_int q 100))]).
  { destruct r as [[] st'|e st'|st']; simpl.
    - destruct H as (st1 & (_ & He & _) & _ & _ & [[_ ->]|(t & q & Ht & Hnz & Hq & ->)]).
      + now left.
      + right. exists t, q. simpl. rewrite He. auto.
    - destruct H as [(_ & He & _) _]. now left.
    - destruct H as [(_ & He & _) _]. now left. }
  split; [|split; [|split]].
  - intros Hf. destruct Cases as [E|(t & q & Ht & Hnz & _)]; [exact E|].
    rewrite Ht in Hf. simpl in Hf. apply Z.eqb_neq in Hnz.
    rewrite Hnz in Hf. discriminate.
  - destruct Cases as [E|(t & q & Ht & Hnz & Hq & _ & E)]; [now left|].
    right. exists t, q. auto.
  - intros Ht st' Hr. rewrite Hr in H.
    destruct H as (st1 & (_ & He & _) & _ & _ & [[Hf _]|(t & q & _ & _ & _ & ->)]).
    + congruence.
    + eexists. rewrite Hr. simpl. now rewrite He.
  - intros pct Hin. destruct Cases as [E|(t & q & _ & _ & _ & _ & E)];
      rewrite E in Hin; [now left|].
    apply in_app_or in Hin. destruct Hin as [Hin|[[= <-]|[]]]; [now left|].
    right. apply clamped_floor_range.
Qed.

(** C4 fails in its formula: with a total of 100 bytes of which 71 remain
    the callback emits 28, where the floor of [100 * 29 / 100] is 29; the
    binary64 quotient of 29 by 100 times 100 is below 29. *)
Lemma percent_off_by_one :
  events (_on_progress Demo.mp4_720 71 (Demo.idle (py "watch")))
  = [progress 28]
  /\ effective_total (self (Demo.idle (py "watch"))) Demo.mp4_720 = Some 100
  /\ exact_percent 100 71 = 29.
Proof. vm_compute. auto. Qed.

(** C10: no exception of a division by zero ever comes out of
    [_on_progress]; and when the total it works with is zero, nothing is
    emitted, and with neither a pause nor a cancellation pending the
    callback returns at once, the state untouched. *)
Theorem zero_total_suppressed :
  (forall stream bytes_remaining st e st',
     _on_progress stream bytes_remaining st = Raised e st' ->
     forall msg, e <> ZeroDivisionError msg)
  /\ (forall stream bytes_remaining st,
        effective_total (self st) stream = Some 0 ->
        events (_on_progress stream bytes_remaining st) = emitted st
        /\ (pause_event (self st) = false -> cancel_event (self st) = false ->
            _on_progress stream bytes_remaining st = Return tt st)).
Proof.
  split.
  - intros stream bytes_remaining st e st' Hr msg.
    pose proof (on_progress_spec stream bytes_remaining st) as H.
    rewrite Hr in H.
    destruct H as [_ [[_ [->| ->]]|[_ (t & msg' & _ & _ & _ & ->)]]];
      discriminate.
  - intros stream bytes_remaining st Hz. split.
    + pose proof (on_progress_spec stream bytes_remaining st) as H.
      rewrite Hz in H.
      destruct (_on_progress stream bytes_remaining st)
        as [[] st'|e st'|st']; simpl.
      * destruct H as (st1 & (_ & He & _) & _ & _
                       & [[_ ->]|(t & q & [= <-] & Hnz & _)]);
          [exact He | contradiction].
      * now destruct H as [(_ & He & _) _].
      * now destruct H as [(_ & He & _) _].
    + intros Hp Hc.
      unfold _on_progress, bind, pause_loop, get_self.
      unfold effective_total in Hz.
      destruct st as [w fs moments evs]. simpl in *.
      destruct moments; simpl; rewrite Hp; simpl; rewrite Hc, Hz; reflexivity.
Qed.

Lemma zero_total_suppressed_witness :
  effective_total (self (Demo.idle (py "watch"))) Demo.hollow = Some 0
  /\ _on_progress Demo.hollow 0 (Demo.idle (py "watch"))
     = Return tt (Demo.idle (py "watch")).
Proof.
  split; [reflexivity|].
  apply (proj2 zero_total_suppressed Demo.hollow 0 (Demo.idle (py "watch")));
    reflexivity.
Defined.

(** ** Every step of a run keeps what [follows] says *)






Lemma drifted_follows (st st' : State) : drifted st st' -> follows st st'.
Proof.
  intros H. destruct (drifted_fields H) as (H1 & H2 & H3 & _ & H5).
  destruct H as (Hf & He & Hu).
  split; [exists []; now rewrite List.app_nil_r|].
  repeat split; assumption.
Qed.

Lemma follows_refl (st : State) : follows st st.
Proof. apply drifted_follows, drifted_refl. Qed.

Lemma follows_trans (st1 st2 st3 : State) :
  follows st1 st2 -> follows st2 st3 -> follows st1 st3.
Proof.
  intros ([e1 E1] & U1 & D1 & M1 & C1) ([e2 E2] & U2 & D2 & M2 & C2).
  split; [exists (e1 ++ e2); now rewrite E2, E1, app_assoc|].
  repeat split; try congruence. intros H. now apply C2, C1.
Qed.

Lemma steady_ret {A} (a : A) : steady (ret a).
Proof. intros st. apply follows_refl. Qed.

Lemma steady_raise {A} (e : exn) : steady (@raise A e).
Proof. intros st. apply follows_refl. Qed.

Lemma steady_lift {A} (r : exn + A) : steady (lift r).
Proof. destruct r; [apply steady_raise | apply steady_ret]. Qed.

Lemma steady_bind {A B} (m : M A) (k : A -> M B) :
  steady m -> (forall a, steady (k a)) -> steady (bind m k).
Proof.
  intros Hm Hk st. unfold bind. specialize (Hm st).
  destruct (m st) as [a st'|e st'|st']; simpl in *; [|exact Hm|exact Hm].
  apply (follows_trans Hm), Hk.
Qed.

Lemma steady_try_except {A} (m : M A) (handler : exn -> M A) :
  steady m -> (forall e, steady (handler e)) -> steady (try_except m handler).
Proof.
  intros Hm Hh st. unfold try_except. specialize (Hm st).
  destruct (m st) as [a st'|e st'|st']; simpl in *; [exact Hm| |exact Hm].
  apply (follows_trans Hm), Hh.
Qed.

Lemma steady_get_self : steady get_self.
Proof. intros st. apply follows_refl. Qed.

Lemma follows_step (st st' : State) (evs : list Event) :
  emitted st' = emitted st ++ evs ->
  url (self st') = url (self st) ->
  dest_dir (self st') = dest_dir (self st) ->
  mode (self st') = mode (self st) ->
  cancel_event (self st') = cancel_event (self st) ->
  follows st st'.
Proof.
  intros E U D M C. split; [now exists evs|].
  split; [exact U|]. split; [exact D|]. split; [exact M|]. congruence.
Qed.

Lemma steady_emit (e : Event) : steady (emit e).
Proof. intros st. now apply follows_step with (evs := [e]). Qed.

Lemma steady_create (p : Path) : steady (create p).
Proof.
  intros st. apply follows_step with (evs := []); simpl; auto using List.app_nil_r.
Qed.

Lemma steady_tick : steady tick.
Proof.
  intros st. destruct (tick_drifted st) as (st' & -> & H).
  now apply drifted_follows.
Qed.

Lemma steady_mkdir_from (todo : Path) : forall done, steady (mkdir_from done todo).
Proof.
  induction todo as [|c todo IH]; intros done; simpl.
  - apply steady_ret.
  - apply steady_bind; [apply steady_create | intros _; apply IH].
Qed.

Lemma steady_pause_loop : steady pause_loop.
Proof.
  intros st. pose proof (pause_loop_spec st) as H.
  destruct (pause_loop st); simpl; apply drifted_follows, H.
Qed.

Lemma steady_percent (done total : Z) : steady (percent done total).
Proof.
  apply steady_bind; [apply steady_lift | intros q; apply steady_lift].
Qed.

Lemma steady_on_progress (stream : Stream) (bytes_remaining : Z) :
  steady (_on_progress stream bytes_remaining).
Proof.
  apply steady_bind; [apply steady_pause_loop | intros _].
  apply steady_bind; [apply steady_get_self | intros w].
  destruct (cancel_event w); [apply steady_raise|]. cbv zeta.
  destruct (negb _); [apply steady_ret|].
  destruct (Num.or _ _); [|apply steady_ret].
  apply steady_bind; [apply steady_percent | intros pct; apply steady_emit].
Qed.

Lemma steady_transfer (stream : Stream) (remaining : list Z) :
  steady (transfer stream remaining).
Proof.
  induction remaining as [|b remaining IH]; simpl.
  - apply steady_ret.
  - apply steady_bind; [apply steady_tick | intros _].
    apply steady_bind; [apply steady_on_progress | intros _; exact IH].
Qed.

Lemma steady_download (stream : Stream) (out_path : Path) :
  steady (download stream out_path).
Proof.
  apply steady_bind; [apply steady_create | intros _].
  apply steady_bind; [apply steady_transfer | intros _].
  destruct (fault stream); [apply steady_raise | apply steady_tick].
Qed.

Lemma steady_unique_path_here (d : Path) (b e : pystr) :
  steady (unique_path_here d b e).
Proof.
  intros st. unfold unique_path_here.
  destruct (unique_path _ _ _ _); apply follows_refl.
Qed.

Lemma steady_set_total (total : option Z) :
  steady (fun st => Return tt (set_self (set_current_total total (self st)) st)).
Proof.
  intros st. apply follows_step with (evs := []); simpl; auto using List.app_nil_r.
Qed.

Section Steadiness.

Variable client : Client.

Lemma steady_download_one (link : pystr) : steady (_download_one client link).
Proof.
  apply steady_bind; [apply steady_tick | intros _].
  apply steady_bind; [apply steady_lift | intros yt]. cbv zeta.
  apply steady_bind; [apply steady_get_self | intros w].
  destruct (_select_stream w yt) as [stream|]; [|apply steady_raise].
  apply steady_bind; [apply steady_set_total | intros _].
  apply steady_bind; [apply steady_unique_path_here | intros out_path].
  apply steady_bind; [apply steady_emit | intros _].
  apply steady_bind; [apply steady_download | intros _].
  apply steady_bind; [apply steady_emit | intros _; apply steady_emit].
Qed.

Lemma steady_iter_from (video_urls : list pystr) : forall count total_items,
  steady (iter_from client count total_items video_urls).
Proof.
  induction video_urls as [|u video_urls IH]; intros count total_items; simpl.
  - apply steady_ret.
  - apply steady_bind; [apply steady_get_self | intros w].
    destruct (cancel_event w); [apply steady_ret|].
    apply steady_bind; [apply steady_emit | intros _].
    apply steady_bind; [apply steady_download_one | intros _; apply IH].
Qed.

Lemma steady_run : steady (run client).
Proof.
  apply steady_try_except; [|intros e; apply steady_emit].
  apply steady_bind; [apply steady_get_self | intros w].
  apply steady_bind; [apply steady_mkdir_from | intros _].
  apply steady_bind; [apply steady_tick | intros _]. cbv zeta.
  apply steady_bind.
  - destruct (Playlist client (url w)) as [e|video_urls].
    + apply steady_download_one.
    + destruct (0 <? _); [|apply steady_download_one].
      apply steady_bind; [apply steady_emit | intros _; apply steady_iter_from].
  - intros _. apply steady_bind; [apply steady_get_self | intros w'].
    destruct (cancel_event w'); apply steady_emit.
Qed.

End Steadiness.

(** ** The two events *)

Lemma toggles (n : nat) : forall w,
  pause_event (calls (repeat TogglePause n) w)
  = (if Nat.even n then pause_event w else negb (pause_event w))
  /\ cancel_event (calls (repeat TogglePause n) w) = cancel_event w.
Proof.
  induction n as [n IH] using (well_founded_induction lt_wf). intros w.
  destruct n as [|[|n]]; [now split| |].
  - simpl. split; [now destruct (pause_event w) | reflexivity].
  - change (calls (repeat TogglePause (S (S n))) w)
      with (calls (repeat TogglePause n) (toggle_pause (toggle_pause w))).
    destruct (IH n (Nat.lt_lt_succ_r _ _ (Nat.lt_succ_diag_r n))
                (toggle_pause (toggle_pause w))) as [-> ->].
    simpl. split; [now destruct (pause_event w) | reflexivity].
Qed.

(** C9: once [cancel_event] is set it stays set, whatever the interface
    thread calls afterwards and whatever the worker thread does until the
    run is over; [toggle_pause] flips [pause_event] and nothing else, so any
    number of toggles leaves it flipped or not by the parity of that number,
    before a cancellation and after it. *)
Theorem cancel_never_reverts :
  (forall w, cancel_event (cancel w) = true)
  /\ (forall cs w, cancel_event w = true -> cancel_event (calls cs w) = true)
  /\ (forall client st, cancel_event (self st) = true ->
        cancel_event (self (state_of (run client st))) = true)
  /\ (forall w, pause_event (toggle_pause w) = negb (pause_event w)
                /\ cancel_event (toggle_pause w) = cancel_event w)
  /\ (forall n w,
        pause_event (calls (repeat TogglePause n) w)
        = (if Nat.even n then pause_event w else negb (pause_event w))
        /\ cancel_event (calls (repeat TogglePause n) w) = cancel_event w).
Proof.
  split; [reflexivity|]. split; [|split; [|split]].
  - intros cs w. apply calls_fields.
  - intros client st. apply (steady_run client st).
  - intros w. simpl. split; [now destruct (pause_event w) | reflexivity].
  - intros n w. apply toggles.
Qed.

(** ** An identifier that is not a playlist *)

Lemma create_quiet (p : Path) (st : State) :
  exists st', create p st = Return tt st'
    /\ self st' = self st /\ pending st' = pending st
    /\ emitted st' = emitted st.
Proof. eexists. split; [reflexivity|]. simpl. auto. Qed.

Lemma mkdir_from_quiet (todo : Path) : forall done st,
  exists st', mkdir_from done todo st = Return tt st'
    /\ self st' = self st /\ pending st' = pending st
    /\ emitted st' = emitted st.
Proof.
  induction todo as [|c todo IH]; intros done st; simpl.
  - exists st. auto.
  - unfold bind. destruct (create_quiet (done ++ [c]) st) as (st1 & -> & S1 & P1 & E1).
    destruct (IH (done ++ [c]) st1) as (st2 & -> & S2 & P2 & E2).
    exists st2. repeat split; congruence.
Qed.

(** What [run] does before it looks at the identifier. *)
Lemma run_prelude (st : State) :
  exists st0 st1,
    mkdir (dest_dir (self st)) st = Return tt st0
    /\ tick st0 = Return tt st1
    /\ emitted st1 = emitted st /\ url (self st1) = url (self st).
Proof.
  unfold mkdir.
  destruct (mkdir_from_quiet (dest_dir (self st)) [] st) as (st0 & H0 & S0 & P0 & E0).
  destruct (tick_drifted st0) as (st1 & H1 & Hd).
  exists st0, st1. split; [exact H0|]. split; [exact H1|].
  destruct (drifted_fields Hd) as (U & _). destruct Hd as (_ & E & _).
  split; congruence.
Qed.

(** C8: when the identifier cannot be read as a playlist (the client raises,
    or the playlist has no item), [run] emits nothing for that and goes on as
    it does for a single item: it downloads the original [url] and ends by
    the outcome of that download alone. *)
Theorem playlist_failure_is_single_item (client : Client) (st : State) :
  not_a_playlist (Playlist client (url (self st))) ->
  exists st1,
    bind (mkdir (dest_dir (self st))) (fun _ => tick) st = Return tt st1
    /\ emitted st1 = emitted st
    /\ run client st = finish (_download_one client (url (self st)) st1).
Proof.
  intros Hp. destruct (run_prelude st) as (st0 & st1 & H0 & H1 & E1 & U1).
  exists st1. split; [unfold bind; now rewrite H0|]. split; [exact E1|].
  unfold run, try_except, bind, get_self. rewrite H0, H1.
  replace (match Playlist client (url (self st)) with
           | inl _ => _download_one client (url (self st))
           | inr video_urls => _
           end) with (_download_one client (url (self st))).
  - destruct (_download_one client (url (self st)) st1) as [[] st2|e st2|st2];
      simpl; try reflexivity.
    destruct (cancel_event (self st2)); reflexivity.
  - destruct (Playlist client (url (self st))) as [e|l]; [reflexivity|].
    simpl in Hp. now subst l.
Qed.

Lemma playlist_failure_is_single_item_witness :
  exists st1,
    bind (mkdir Demo.out) (fun _ => tick) (Demo.idle (py "watch"))
    = Return tt st1
    /\ emitted st1 = []
    /\ run Demo.client (Demo.idle (py "watch"))
       = finish (_download_one Demo.client (py "watch") st1).
Proof.
  apply (playlist_failure_is_single_item Demo.client (Demo.idle (py "watch"))).
  exact I.
Defined.

(** ** A calm run of successful downloads *)

















(** ** Cancellation during a transfer *)

(** C1 (what the code does): with [cancel_event] set, [_on_progress] ends by
    raising a plain exception, from the pause loop or from the check after
    it, having emitted nothing; and [run] reports every exception with
    [error].  The first run below is paused while the first chunk arrives
    and cancelled during the pause, the second is cancelled while the second
    chunk arrives: both end with [error], none with
    [finished_with_cancel]. *)
Theorem cancel_in_transfer_ends_in_error :
  (forall stream bytes_remaining st,
     cancel_event (self st) = true ->
     exists msg st',
       _on_progress stream bytes_remaining st = Raised (Exception msg) st'
       /\ emitted st' = emitted st)
  /\ events (start Demo.client (py "watch") Demo.out (py "full") []
               [[]; []; [TogglePause]; [Cancel]])
     = [status (py "Iniciando: My Video");
        error (py "Cancelado durante pausa.")]
  /\ events (start Demo.client (py "watch") Demo.out (py "full") []
               [[]; []; []; [Cancel]])
     = [status (py "Iniciando: My Video"); progress 28;
        error msg_cancelled].
Proof.
  split; [|split; vm_compute; reflexivity].
  intros stream bytes_remaining st Hc.
  pose proof (on_progress_spec stream bytes_remaining st) as H.
  destruct (_on_progress stream bytes_remaining st) as [[] st'|e st'|st'].
  - destruct H as (st1 & Hd & _ & Hf & _).
    destruct (drifted_fields Hd) as (_ & _ & _ & _ & Hk).
    rewrite (Hk Hc) in Hf. discriminate.
  - destruct H as [Hd [[_ [->| ->]]|[Hf _]]].
    + eexists _, st'. split; [reflexivity | apply Hd].
    + eexists _, st'. split; [reflexivity | apply Hd].
    + destruct (drifted_fields Hd) as (_ & _ & _ & _ & Hk).
      rewrite (Hk Hc) in Hf. discriminate.
  - destruct H as (Hd & _ & _ & Hf).
    destruct (drifted_fields Hd) as (_ & _ & _ & _ & Hk).
    rewrite (Hk Hc) in Hf. discriminate.
Qed.

(** ** Cancellation before the first item *)

(** C2 (what the code does): [cancel] is called while [run] still reads the
    identifier, before any item.  For a playlist [_iter_playlist] sees the
    flag before the first item and the run ends with
    [finished_with_cancel], no [item_done] emitted.  For a single item
    nothing looks at the flag before the transfer: the download starts, the
    first report raises and the run ends with [error]; and when the transfer
    makes no report the item is completed, [item_done] emitted, before
    [finished_with_cancel]. *)
Theorem cancel_before_single_item_ends_in_error :
  events (start Demo.client (py "list") Demo.out (py "full") [] [[Cancel]])
  = [status (py "Detectada playlist. Preparando itens...");
     finished_with_cancel]
  /\ events (start Demo.client (py "watch") Demo.out (py "full") []
               [[Cancel]])
     = [status (py "Iniciando: My Video"); error msg_cancelled]
  /\ events (start Demo.instant (py "watch") Demo.out (py "full") []
               [[Cancel]])
     = [status (py "Iniciando: My Video"); progress 100;
        item_done (py "My Video") (Demo.out ++ [py "My Video.mp4"]);
        finished_with_cancel].
Proof. repeat split; vm_compute; reflexivity. Qed.
